(** * Fixed-step ODE steppers of [ode.py]: Euler, RK2 (midpoint), RK4

    A shallow embedding of [src/ode/ode.py].  The three functions [Euler],
    [RK2] and [RK4] work on IEEE 754 binary64 numbers (Python [float],
    NumPy [float64]); these are Rocq's primitive [float]s, so every
    arithmetic operation below rounds exactly as it does in the program.

    Effects are explicit: a computation threads the trace of the calls made
    to the caller's derivative function [f], and either returns a value or
    raises a Python exception. *)

From Stdlib Require Import ZArith List Lia Bool Floats.
Import ListNotations.

(** ** Effects: the trace of calls to [f], and exceptions *)

Inductive exn : Type :=
| ZeroDivisionError   (* float division by the integer 0 *)
| OverflowError       (* int too large to convert to float *)
| ValueError          (* np.linspace with a negative number of samples *)
| IndexError.         (* subscript outside an array *)

(** One entry per invocation of the derivative function: the pair
    (state, time) it was applied to.  The most recent call comes first. *)
Definition trace : Type := list (float * float).

Inductive outcome (A : Type) : Type :=
| Returns (a : A) (tr : trace)
| Raises (e : exn) (tr : trace).

Arguments Returns {A} a tr.
Arguments Raises {A} e tr.

Definition M (A : Type) : Type := trace -> outcome A.

Definition ret {A} (a : A) : M A := fun tr => Returns a tr.

Definition raise {A} (e : exn) : M A := fun tr => Raises e tr.

Definition bind {A B} (m : M A) (k : A -> M B) : M B :=
  fun tr =>
    match m tr with
    | Returns a tr' => k a tr'
    | Raises e tr' => Raises e tr'
    end.

Declare Scope py_scope.
Delimit Scope py_scope with py.
Notation "x <- m ;; k" := (bind m (fun x => k))
  (at level 61, m at next level, right associativity) : py_scope.

(** Applying the caller's function [f] is the one observable effect. *)
Definition call (f : float -> float -> float) (x t : float) : M float :=
  fun tr => Returns (f x t) ((x, t) :: tr).

(** The calls an outcome has seen. *)
Definition calls {A} (o : outcome A) : trace :=
  match o with
  | Returns _ tr => tr
  | Raises _ tr => tr
  end.

(** ** Numbers *)

Open Scope float_scope.

(** The binary64 value nearest to an integer, ties to even (exact below
    2^53); integers that round to 2^1024 or beyond give an infinity. *)
Definition of_Z (n : Z) : float := SF2Prim (binary_normalize prec emax n 0 false).

(** The least magnitude that rounds to 2^1024: the largest binary64 number,
    2^1024 - 2^971, plus half an ulp, 2^970. *)
Definition float_int_bound : Z := 2 ^ 1024 - 2 ^ 970.

(** Conversion of a Python [int] to [float]: Python raises OverflowError
    ("int too large to convert to float") when the rounded value does not
    fit, and gives the nearest binary64 value otherwise. *)
Definition py_float (n : Z) : M float :=
  if (float_int_bound <=? Z.abs n)%Z then raise OverflowError
  else ret (of_Z n).

(** [a / n] for a float [a] and a Python int [n]: the int is converted
    first, then Python raises ZeroDivisionError when it is 0 and divides
    otherwise. *)
Definition truediv (a : float) (n : Z) : M float :=
  bind (py_float n) (fun d =>
    if (n =? 0)%Z then raise ZeroDivisionError else ret (a / d)).

(** ** Arrays: a NumPy array of float64 as a list, indexed from 0 *)

Definition item (l : list float) (i : nat) : float := nth i l 0.

Fixpoint upd (l : list float) (i : nat) (v : float) : list float :=
  match l, i with
  | [], _ => []
  | _ :: l', O => v :: l'
  | a :: l', S i' => a :: upd l' i' v
  end.

(** [l[i]] and [l[i] = v] for a non-negative index; outside the array both
    raise IndexError. *)
Definition getitem (l : list float) (i : nat) : M float :=
  match nth_error l i with
  | Some v => ret v
  | None => raise IndexError
  end.

Definition setitem (l : list float) (i : nat) (v : float) : M (list float) :=
  if (i <? length l)%nat then ret (upd l i v) else raise IndexError.

(** [for i in range(n): x = body i x], counting from [i]. *)
Fixpoint for_range_from (n i : nat) (body : nat -> list float -> M (list float))
    (x : list float) : M (list float) :=
  match n with
  | O => ret x
  | S n' => (x' <- body i x ;; for_range_from n' (S i) body x')%py
  end.

Definition for_range (n : nat) := for_range_from n 0.

Module np.

(** [np.zeros(n)]. *)
Definition zeros (n : nat) : list float := repeat 0 n.

(** [np.arange(0, num)] as float64: 0.0, 1.0, ..., num-1. *)
Definition arange (num : Z) : list float :=
  map (fun i => of_Z (Z.of_nat i)) (seq 0 (Z.to_nat num)).

(** Modelled from the spec: [np.linspace] is NumPy's and is not under src/.
    The spec's time grid builder gives [N] linearly spaced values from [ti]
    to [tf], spacing [(tf-ti)/(N-1)], endpoints included, one value for
    [N = 1], and no grid for a negative [N].  The operations are taken in
    the order NumPy performs them: the samples are [i * step + start] with
    [step = (stop - start) / (num - 1)] (or [i / (num - 1) * (stop - start)]
    when [step] rounds to zero), a single sample is [0 * (stop - start) +
    start], and with two samples or more the last one is overwritten by
    [stop]. *)
Definition linspace (start stop : float) (num : Z) : M (list float) :=
  if (num <? 0)%Z then raise ValueError else
  let div := (num - 1)%Z in
  let delta := stop - start in
  let y := arange num in
  let y :=
    if (0 <? div)%Z then
      let step := delta / of_Z div in
      if step =? 0 then map (fun v => v / of_Z div * delta) y
      else map (fun v => v * step) y
    else map (fun v => v * delta) y in
  let y := map (fun v => v + start) y in
  ret (if (1 <? num)%Z then upd y (length y - 1) stop else y).

End np.

(** ** The three steppers, as written in [ode.py] *)

Open Scope py_scope.

Definition Euler (f : float -> float -> float) (N : Z) (xi ti tf : float)
    : M (list float) :=
  h <- truediv (tf - ti) N ;;
  t <- np.linspace ti tf N ;;
  let x := np.zeros (length t) in
  x <- setitem x 0 xi ;;
  for_range (length t - 1) (fun i x =>
    a <- getitem x i ;;
    b <- getitem x i ;;
    c <- getitem t i ;;
    d <- call f b c ;;
    setitem x (i + 1) (a + h * d)) x.

Definition RK2 (f : float -> float -> float) (N : Z) (xi ti tf : float)
    : M (list float) :=
  h <- truediv (tf - ti) N ;;
  t <- np.linspace ti tf N ;;
  let x := np.zeros (length t) in
  x <- setitem x 0 xi ;;
  for_range (length t - 1) (fun i x =>
    a <- getitem x i ;;
    b <- getitem t i ;;
    d <- call f a b ;;
    let k1 := h * d in
    a <- getitem x i ;;
    b <- getitem t i ;;
    d <- call f (a + k1 / 2) (b + h / 2) ;;
    let k2 := h * d in
    a <- getitem x i ;;
    setitem x (i + 1) (a + k2)) x.

Definition RK4 (f : float -> float -> float) (N : Z) (xi ti tf : float)
    : M (list float) :=
  h <- truediv (tf - ti) N ;;
  t <- np.linspace ti tf N ;;
  let x := np.zeros (length t) in
  x <- setitem x 0 xi ;;
  for_range (length t - 1) (fun i x =>
    a <- getitem x i ;;
    b <- getitem t i ;;
    d <- call f a b ;;
    let k1 := h * d in
    a <- getitem x i ;;
    b <- getitem t i ;;
    d <- call f (a + k1 / 2) (b + h / 2) ;;
    let k2 := h * d in
    a <- getitem x i ;;
    b <- getitem t i ;;
    d <- call f (a + k2 / 2) (b + h / 2) ;;
    let k3 := h * d in
    a <- getitem x i ;;
    b <- getitem t i ;;
    d <- call f (a + k3) (b + h) ;;
    let k4 := h * d in
    a <- getitem x i ;;
    setitem x (i + 1) (a + 1 / 6 * (k1 + 2 * k2 + 2 * k3 + k4))) x.

Close Scope py_scope.

(** ** The update rule of each method as a function of [x[i]] and [t[i]] *)

Definition euler_step (f : float -> float -> float) (h x t : float) : float :=
  x + h * f x t.

Definition rk2_step (f : float -> float -> float) (h x t : float) : float :=
  let k1 := h * f x t in
  let k2 := h * f (x + k1 / 2) (t + h / 2) in
  x + k2.

Definition rk4_step (f : float -> float -> float) (h x t : float) : float :=
  let k1 := h * f x t in
  let k2 := h * f (x + k1 / 2) (t + h / 2) in
  let k3 := h * f (x + k2 / 2) (t + h / 2) in
  let k4 := h * f (x + k3) (t + h) in
  x + 1 / 6 * (k1 + 2 * k2 + 2 * k3 + k4).

(** The three public functions, the number of stages (evaluations of [f])
    each performs per step, and its update rule. *)
Definition stepper : Type :=
  (float -> float -> float) -> Z -> float -> float -> float -> M (list float).

Inductive method : Type := euler | rk2 | rk4.

Definition run (m : method) : stepper :=
  match m with
  | euler => Euler
  | rk2 => RK2
  | rk4 => RK4
  end.

Definition stages (m : method) : nat :=
  match m with
  | euler => 1
  | rk2 => 2
  | rk4 => 4
  end.

Definition step_rule (m : method)
    : (float -> float -> float) -> float -> float -> float -> float :=
  match m with
  | euler => euler_step
  | rk2 => rk2_step
  | rk4 => rk4_step
  end.

(** The grid point of index [i] before the last, for [N >= 2] samples. *)
Definition grid_point (ti tf : float) (N : Z) (i : nat) : float :=
  let step := (tf - ti) / of_Z (N - 1) in
  (if step =? 0 then of_Z (Z.of_nat i) / of_Z (N - 1) * (tf - ti)
   else of_Z (Z.of_nat i) * step) + ti.

(** [k] added [i] times to [x], one rounded sum after the other. *)
Fixpoint add_times (k : float) (i : nat) (x : float) : float :=
  match i with
  | O => x
  | S i' => add_times k i' x + k
  end.

(** Neither a NaN nor an infinity. *)
Definition finite (x : float) : bool :=
  match Prim2SF x with
  | S754_zero _ | S754_finite _ _ _ => true
  | _ => false
  end.

(** A signed zero, in decoded form. *)
Definition is_zero_sf (x : spec_float) : bool :=
  match x with
  | S754_zero _ => true
  | _ => false
  end.

(** [x] is the trajectory that the update rule [g] generates from [xi] over
    the grid [t]. *)
Definition trajectory (g : float -> float -> float) (xi : float)
    (t x : list float) : Prop :=
  length x = length t /\
  item x 0 = xi /\
  forall i, (S i < length t)%nat -> item x (S i) = g (item x i) (item t i).

(** What a call of each function returns when [N >= 1] converts to a float:
    the grid [t], the trajectory [x] of its update rule, and the calls [cs]
    it made. *)
Definition run_spec (s : stepper)
    (g : (float -> float -> float) -> float -> float -> float -> float)
    (c : nat) : Prop :=
  forall f N xi ti tf tr,
    (1 <= N)%Z -> (N < float_int_bound)%Z ->
    exists t x cs,
      np.linspace ti tf N [] = Returns t [] /\
      length t = Z.to_nat N /\
      s f N xi ti tf tr = Returns x (cs ++ tr) /\
      length cs = (c * (Z.to_nat N - 1))%nat /\
      trajectory (g f ((tf - ti) / of_Z N)) xi t x.

(** The points at which one step from [(x, t)] applies [f], the most recent
    first. *)
Definition stage_points (m : method) (f : float -> float -> float)
    (h x t : float) : trace :=
  match m with
  | euler => [(x, t)]
  | rk2 =>
      let k1 := h * f x t in
      [(x + k1 / 2, t + h / 2); (x, t)]
  | rk4 =>
      let k1 := h * f x t in
      let k2 := h * f (x + k1 / 2) (t + h / 2) in
      let k3 := h * f (x + k2 / 2) (t + h / 2) in
      [(x + k3, t + h); (x + k2 / 2, t + h / 2); (x + k1 / 2, t + h / 2); (x, t)]
  end.

(** The calls of the steps [i], [i+1], ..., [i+n-1] along the trajectory [x]
    over the grid [t], the most recent first. *)
Definition visited (m : method) (f : float -> float -> float) (h : float)
    (x t : list float) (i n : nat) : trace :=
  flat_map (fun j => stage_points m f h (item x j) (item t j)) (rev (seq i n)).

(** ** Arrays *)

Lemma upd_length (l : list float) i v : length (upd l i v) = length l.
Proof.
  revert i; induction l as [|a l IH]; intros [|i]; simpl; auto.
Qed.

Lemma item_upd_eq (l : list float) i v :
  (i < length l)%nat -> item (upd l i v) i = v.
Proof.
  unfold item; revert i; induction l as [|a l IH]; intros [|i] H; simpl in *;
    try lia; auto.
  apply IH; lia.
Qed.

Lemma item_upd_neq (l : list float) i j v :
  i <> j -> item (upd l i v) j = item l j.
Proof.
  unfold item; revert i j; induction l as [|a l IH]; intros [|i] [|j] H; simpl;
    auto; try congruence.
Qed.

Lemma nth_error_item (l : list float) i :
  (i < length l)%nat -> nth_error l i = Some (item l i).
Proof.
  unfold item; revert i; induction l as [|a l IH]; intros [|i] H; simpl in *;
    try lia; auto.
  apply IH; lia.
Qed.

Lemma getitem_ok (l : list float) i tr :
  (i < length l)%nat -> getitem l i tr = Returns (item l i) tr.
Proof.
  intros H; unfold getitem; rewrite (nth_error_item l i H); reflexivity.
Qed.

Lemma setitem_ok (l : list float) i v tr :
  (i < length l)%nat -> setitem l i v tr = Returns (upd l i v) tr.
Proof.
  intros H; unfold setitem.
  destruct (Nat.ltb_spec i (length l)); [reflexivity | lia].
Qed.

Lemma item_eq_ext (l l' : list float) :
  length l = length l' ->
  (forall i, (i < length l)%nat -> item l i = item l' i) -> l = l'.
Proof.
  revert l'; induction l as [|a l IH]; intros [|a' l'] Hlen H; simpl in *;
    try discriminate; auto.
  f_equal.
  - apply (H 0%nat); lia.
  - apply IH; [lia|]. intros i Hi. apply (H (S i)); lia.
Qed.

(** ** The time grid *)

Lemma arange_length num : length (np.arange num) = Z.to_nat num.
Proof. unfold np.arange; rewrite length_map, length_seq; reflexivity. Qed.

Lemma linspace_returns ti tf N tr :
  (0 <= N)%Z ->
  exists t, np.linspace ti tf N tr = Returns t tr /\ length t = Z.to_nat N.
Proof.
  intros HN; unfold np.linspace.
  destruct (Z.ltb_spec N 0); [lia|].
  eexists; split; [reflexivity|].
  destruct (1 <? N)%Z; rewrite ?upd_length, length_map;
    destruct (0 <? N - 1)%Z; [destruct (_ =? _)%float| | destruct (_ =? _)%float|];
    rewrite length_map; apply arange_length.
Qed.

Lemma linspace_raises ti tf N tr :
  (N < 0)%Z -> np.linspace ti tf N tr = Raises ValueError tr.
Proof.
  intros HN; unfold np.linspace.
  destruct (Z.ltb_spec N 0); [reflexivity | lia].
Qed.

(** ** The step size *)

Lemma float_int_bound_pos : (0 < float_int_bound)%Z.
Proof. reflexivity. Qed.

(** The bound is where rounding reaches infinity. *)
Lemma of_Z_at_bound :
  of_Z (float_int_bound - 1) = 0x1.fffffffffffffp+1023 /\
  of_Z float_int_bound = infinity /\
  of_Z (- float_int_bound) = neg_infinity.
Proof. repeat split; vm_compute; reflexivity. Qed.

Lemma truediv_ok a N tr :
  (N <> 0)%Z -> (Z.abs N < float_int_bound)%Z ->
  truediv a N tr = Returns (a / of_Z N) tr.
Proof.
  intros H0 HB. unfold truediv, py_float, bind.
  destruct (Z.leb_spec float_int_bound (Z.abs N)); [lia|].
  unfold ret at 1. destruct (Z.eqb_spec N 0); [lia | reflexivity].
Qed.

Lemma truediv_zero a tr : truediv a 0 tr = Raises ZeroDivisionError tr.
Proof. reflexivity. Qed.

Lemma truediv_overflow a N tr :
  (float_int_bound <= Z.abs N)%Z -> truediv a N tr = Raises OverflowError tr.
Proof.
  intros HB. unfold truediv, py_float, bind.
  destruct (Z.leb_spec float_int_bound (Z.abs N)); [reflexivity | lia].
Qed.

(** ** The stepping loop *)

Section Loop.

Variable t : list float.
Variable g : float -> float -> float.
Variable c : nat.
Variable body : nat -> list float -> M (list float).

(** One pass through the loop body stores [g x[i] t[i]] at [i+1] and
    performs [c] calls. *)
Hypothesis body_ok : forall i x tr,
  (S i < length x)%nat -> (i < length t)%nat ->
  exists cs, length cs = c /\
    body i x tr = Returns (upd x (S i) (g (item x i) (item t i))) (cs ++ tr).

Lemma for_range_from_ok : forall n i x tr,
  (i + n < length x)%nat -> (i + n <= length t)%nat ->
  exists x' cs,
    for_range_from n i body x tr = Returns x' (cs ++ tr) /\
    length cs = (c * n)%nat /\
    length x' = length x /\
    (forall j, (j <= i)%nat -> item x' j = item x j) /\
    (forall j, (i <= j < i + n)%nat ->
               item x' (S j) = g (item x' j) (item t j)).
Proof.
  induction n as [|n IH]; intros i x tr Hx Ht.
  - exists x, []; simpl; repeat split; auto; intros; lia.
  - destruct (body_ok i x tr) as (cs & Hcs & Hb); [lia | lia |].
    set (x1 := upd x (S i) (g (item x i) (item t i))) in *.
    destruct (IH (S i) x1 (cs ++ tr)) as (x' & cs' & Hrun & Hlen & Hx' & Hlow & Hrec).
    { unfold x1; rewrite upd_length; lia. }
    { lia. }
    exists x', (cs' ++ cs); simpl; unfold bind; rewrite Hb, Hrun.
    repeat split.
    + now rewrite app_assoc.
    + rewrite length_app; lia.
    + rewrite Hx'; apply upd_length.
    + intros j Hj. rewrite Hlow by lia. apply item_upd_neq; lia.
    + intros j Hj. destruct (Nat.eq_dec j i) as [->|Hne].
      * rewrite !Hlow by lia. unfold x1.
        rewrite item_upd_eq by lia. rewrite item_upd_neq by lia. reflexivity.
      * apply Hrec; lia.
Qed.

End Loop.

(** The harness the three functions share: step size, grid, buffer seeded
    with [xi], then the loop over [len(t) - 1] steps. *)
Section Harness.

Variable g : float -> float -> float -> float.
Variable c : nat.
Variable body : float -> list float -> nat -> list float -> M (list float).

Hypothesis body_ok : forall h t i x tr,
  (S i < length x)%nat -> (i < length t)%nat ->
  exists cs, length cs = c /\
    body h t i x tr
    = Returns (upd x (S i) (g h (item x i) (item t i))) (cs ++ tr).

Lemma harness_ok N xi ti tf tr :
  (1 <= N)%Z -> (N < float_int_bound)%Z ->
  exists t x cs,
    np.linspace ti tf N [] = Returns t [] /\
    length t = Z.to_nat N /\
    bind (truediv (tf - ti) N) (fun h =>
      bind (np.linspace ti tf N) (fun t =>
        let x := np.zeros (length t) in
        bind (setitem x 0 xi) (fun x =>
          for_range (length t - 1) (body h t) x))) tr
    = Returns x (cs ++ tr) /\
    length cs = (c * (Z.to_nat N - 1))%nat /\
    trajectory (g ((tf - ti) / of_Z N)) xi t x.
Proof.
  intros HN HB.
  destruct (linspace_returns ti tf N []) as (t & Ht & Hlen); [lia|].
  destruct (linspace_returns ti tf N tr) as (t' & Ht' & _); [lia|].
  assert (t' = t) as ->.
  { unfold np.linspace in *. destruct (N <? 0)%Z; [discriminate|].
    unfold ret in *. congruence. }
  set (h := (tf - ti) / of_Z N).
  set (x0 := upd (np.zeros (length t)) 0 xi).
  assert (Hx0 : length x0 = length t).
  { unfold x0, np.zeros; rewrite upd_length; apply repeat_length. }
  destruct (for_range_from_ok t (g h) c (body h t) (body_ok h t)
              (length t - 1)%nat 0%nat x0 tr)
    as (x & cs & Hrun & Hcs & Hx & Hlow & Hrec); [lia | lia |].
  exists t, x, cs; repeat split; auto.
  - unfold bind at 1. rewrite (truediv_ok (tf - ti) N tr) by lia.
    unfold bind. rewrite Ht'. cbv zeta.
    rewrite setitem_ok by (unfold np.zeros; rewrite repeat_length; lia).
    exact Hrun.
  - now rewrite <- Hlen.
  - lia.
  - rewrite Hlow by lia. unfold x0. apply item_upd_eq.
    unfold np.zeros; rewrite repeat_length; lia.
  - intros i Hi. apply Hrec; lia.
Qed.

End Harness.

(** The loop bodies of the three functions. *)

Ltac run_body :=
  unfold bind, call;
  repeat (first [ rewrite getitem_ok by lia
                | rewrite Nat.add_1_r, setitem_ok by lia ];
          cbv beta iota zeta);
  reflexivity.

Lemma Euler_body_ok f h t i x tr :
  (S i < length x)%nat -> (i < length t)%nat ->
  exists cs, length cs = 1%nat /\
    bind (getitem x i) (fun a =>
      bind (getitem x i) (fun b =>
        bind (getitem t i) (fun c =>
          bind (call f b c) (fun d => setitem x (i + 1) (a + h * d))))) tr
    = Returns (upd x (S i) (euler_step f h (item x i) (item t i))) (cs ++ tr).
Proof.
  intros Hx Ht. eexists [_]; split; [reflexivity|]. run_body.
Qed.

Lemma RK2_body_ok f h t i x tr :
  (S i < length x)%nat -> (i < length t)%nat ->
  exists cs, length cs = 2%nat /\
    bind (getitem x i) (fun a =>
      bind (getitem t i) (fun b =>
        bind (call f a b) (fun d =>
          let k1 := h * d in
          bind (getitem x i) (fun a =>
            bind (getitem t i) (fun b =>
              bind (call f (a + k1 / 2) (b + h / 2)) (fun d =>
                let k2 := h * d in
                bind (getitem x i) (fun a =>
                  setitem x (i + 1) (a + k2)))))))) tr
    = Returns (upd x (S i) (rk2_step f h (item x i) (item t i))) (cs ++ tr).
Proof.
  intros Hx Ht. eexists [_; _]; split; [reflexivity|]. run_body.
Qed.

Lemma RK4_body_ok f h t i x tr :
  (S i < length x)%nat -> (i < length t)%nat ->
  exists cs, length cs = 4%nat /\
    bind (getitem x i) (fun a =>
      bind (getitem t i) (fun b =>
        bind (call f a b) (fun d =>
          let k1 := h * d in
          bind (getitem x i) (fun a =>
            bind (getitem t i) (fun b =>
              bind (call f (a + k1 / 2) (b + h / 2)) (fun d =>
                let k2 := h * d in
                bind (getitem x i) (fun a =>
                  bind (getitem t i) (fun b =>
                    bind (call f (a + k2 / 2) (b + h / 2)) (fun d =>
                      let k3 := h * d in
                      bind (getitem x i) (fun a =>
                        bind (getitem t i) (fun b =>
                          bind (call f (a + k3) (b + h)) (fun d =>
                            let k4 := h * d in
                            bind (getitem x i) (fun a =>
                              setitem x (i + 1)
                                (a + 1 / 6 * (k1 + 2 * k2 + 2 * k3 + k4))
                          ))))))))))))) tr
    = Returns (upd x (S i) (rk4_step f h (item x i) (item t i))) (cs ++ tr).
Proof.
  intros Hx Ht. eexists [_; _; _; _]; split; [reflexivity|]. run_body.
Qed.

Lemma Euler_run : run_spec Euler euler_step 1.
Proof.
  intros f N xi ti tf tr HN HB.
  exact (harness_ok (euler_step f) 1 _ (Euler_body_ok f) N xi ti tf tr HN HB).
Qed.

Lemma RK2_run : run_spec RK2 rk2_step 2.
Proof.
  intros f N xi ti tf tr HN HB.
  exact (harness_ok (rk2_step f) 2 _ (RK2_body_ok f) N xi ti tf tr HN HB).
Qed.

Lemma RK4_run : run_spec RK4 rk4_step 4.
Proof.
  intros f N xi ti tf tr HN HB.
  exact (harness_ok (rk4_step f) 4 _ (RK4_body_ok f) N xi ti tf tr HN HB).
Qed.

Lemma run_ok (m : method) : run_spec (run m) (step_rule m) (stages m).
Proof. destruct m; [apply Euler_run | apply RK2_run | apply RK4_run]. Qed.

(** A trajectory is determined by its rule, its seed and its grid. *)
Lemma trajectory_unique g g' xi t x x' :
  (forall a b, g a b = g' a b) ->
  trajectory g xi t x -> trajectory g' xi t x' -> x = x'.
Proof.
  intros Hg (Hl & H0 & Hs) (Hl' & H0' & Hs').
  apply item_eq_ext; [congruence|].
  intros i Hi. induction i as [|i IH].
  - congruence.
  - rewrite Hs, Hs' by lia. rewrite IH by lia. apply Hg.
Qed.

(** ** The points of the grid *)

Lemma item_map (g : float -> float) l i :
  (i < length l)%nat -> item (map g l) i = g (item l i).
Proof.
  intros H; unfold item.
  rewrite (nth_indep (map g l) 0 (g 0)) by (now rewrite length_map).
  apply map_nth.
Qed.

Lemma item_arange N i :
  (i < Z.to_nat N)%nat -> item (np.arange N) i = of_Z (Z.of_nat i).
Proof.
  intros H; unfold item, np.arange.
  rewrite (nth_indep _ 0 (of_Z (Z.of_nat 0)))
    by (now rewrite length_map, length_seq).
  rewrite (map_nth (fun i => of_Z (Z.of_nat i))), seq_nth by assumption.
  reflexivity.
Qed.

Lemma linspace_single ti tf tr :
  np.linspace ti tf 1 tr = Returns [0 * (tf - ti) + ti] tr.
Proof. reflexivity. Qed.

Lemma linspace_items ti tf N t tr :
  (2 <= N)%Z ->
  np.linspace ti tf N tr = Returns t tr ->
  item t (Z.to_nat N - 1) = tf /\
  forall i, (S i < Z.to_nat N)%nat -> item t i = grid_point ti tf N i.
Proof.
  intros HN; unfold np.linspace.
  destruct (Z.ltb_spec N 0); [lia|].
  destruct (Z.ltb_spec 1 N); [|lia].
  destruct (Z.ltb_spec 0 (N - 1)); [|lia].
  unfold ret; intros Ht; injection Ht as <-.
  set (step := (tf - ti) / of_Z (N - 1)).
  set (y := map _ (if step =? 0 then _ else _)).
  assert (Hy : length y = Z.to_nat N).
  { unfold y; rewrite length_map.
    destruct (step =? 0); rewrite length_map; apply arange_length. }
  split.
  - rewrite Hy. apply item_upd_eq. lia.
  - intros i Hi. rewrite item_upd_neq by lia.
    unfold y, grid_point. fold step.
    destruct (step =? 0).
    + rewrite item_map by (rewrite length_map, arange_length; lia).
      rewrite item_map by (rewrite arange_length; lia).
      rewrite item_arange by lia. reflexivity.
    + rewrite item_map by (rewrite length_map, arange_length; lia).
      rewrite item_map by (rewrite arange_length; lia).
      rewrite item_arange by lia. reflexivity.
Qed.

(** ** Zeros in binary64 arithmetic *)

Lemma mul_zero_finite z d :
  is_zero_sf (Prim2SF z) = true -> finite d = true ->
  is_zero_sf (Prim2SF (z * d)) = true.
Proof.
  intros Hz Hd. rewrite mul_spec. unfold finite in Hd.
  destruct (Prim2SF z); try discriminate;
    destruct (Prim2SF d); try discriminate; reflexivity.
Qed.

(** Adding a zero to [a] gives [a] back, except that [+0 + -0] is [+0]. *)
Lemma add_zero_l z a :
  is_zero_sf (Prim2SF z) = true -> a <> (-0)%float -> z + a = a.
Proof.
  intros Hz Ha. apply Prim2SF_inj. rewrite add_spec.
  destruct (Prim2SF z) as [s| | |]; try discriminate.
  destruct (Prim2SF a) as [s'| | |] eqn:E; try reflexivity.
  destruct s'.
  - exfalso; apply Ha; apply Prim2SF_inj; rewrite E; reflexivity.
  - destruct s; reflexivity.
Qed.

(** When a quotient is a zero, the divisor is neither zero nor NaN and the
    dividend is finite. *)
Lemma div_zero_inv a d :
  (a / d =? 0) = true ->
  finite a = true /\ is_zero_sf (Prim2SF (0 / d)) = true.
Proof.
  rewrite eqb_spec, !div_spec. unfold finite.
  change (Prim2SF 0) with (S754_zero false).
  destruct (Prim2SF a) as [sa| sa | | sa ma ea];
    destruct (Prim2SF d) as [sd| sd | | sd md ed];
    try destruct sa; try destruct sd; simpl; intros H;
    try discriminate; split; reflexivity.
Qed.

Lemma grid_point_first ti tf N :
  ti <> (-0)%float ->
  finite ((tf - ti) / of_Z (N - 1)) = true ->
  grid_point ti tf N 0 = ti.
Proof.
  intros Hti Hfin. unfold grid_point.
  change (of_Z (Z.of_nat 0)) with 0.
  destruct ((tf - ti) / of_Z (N - 1) =? 0) eqn:E.
  - destruct (div_zero_inv _ _ E) as [Hd Hq].
    apply add_zero_l; auto. apply mul_zero_finite; auto.
  - apply add_zero_l; auto. apply mul_zero_finite; auto.
Qed.

(** Two binary64 values that differ, by their decoded forms. *)
Lemma float_neq (a b : float) : Prim2SF a <> Prim2SF b -> a <> b.
Proof. intros H E; apply H; now rewrite E. Qed.

(** ** When a call returns, and when it raises *)

Lemma run_overflow (m : method) f N xi ti tf tr :
  (float_int_bound <= Z.abs N)%Z ->
  run m f N xi ti tf tr = Raises OverflowError tr.
Proof.
  intros HB. destruct m; unfold run, Euler, RK2, RK4; unfold bind at 1;
    now rewrite truediv_overflow.
Qed.

Lemma run_zero (m : method) f xi ti tf tr :
  run m f 0%Z xi ti tf tr = Raises ZeroDivisionError tr.
Proof. destruct m; reflexivity. Qed.

Lemma run_negative (m : method) f N xi ti tf tr :
  (- float_int_bound < N < 0)%Z ->
  run m f N xi ti tf tr = Raises ValueError tr.
Proof.
  intros HN.
  destruct m; unfold run, Euler, RK2, RK4; unfold bind at 1;
    rewrite truediv_ok by lia; unfold bind at 1;
    now rewrite linspace_raises by lia.
Qed.

Lemma run_returns_spec (m : method) f N xi ti tf tr x tr' :
  run m f N xi ti tf tr = Returns x tr' ->
  (1 <= N < float_int_bound)%Z /\
  exists t cs,
    np.linspace ti tf N [] = Returns t [] /\
    length t = Z.to_nat N /\
    tr' = cs ++ tr /\
    length cs = (stages m * (Z.to_nat N - 1))%nat /\
    trajectory (step_rule m f ((tf - ti) / of_Z N)) xi t x.
Proof.
  intros H. pose proof float_int_bound_pos as Hpos.
  assert (HN : (1 <= N < float_int_bound)%Z).
  { destruct (Z_le_gt_dec float_int_bound (Z.abs N)) as [Hb|Hb].
    - rewrite run_overflow in H by assumption. discriminate.
    - destruct (Z_le_gt_dec N 0) as [Hle|Hgt]; [|lia].
      destruct (Z.eq_dec N 0) as [->|Hne].
      + rewrite run_zero in H. discriminate.
      + rewrite run_negative in H by lia. discriminate. }
  split; [exact HN|].
  destruct (run_ok m f N xi ti tf tr) as (t & x1 & cs & Ht & Hlen & Hx & Hcs & Htraj);
    [lia | lia |].
  rewrite Hx in H. injection H as -> <-.
  exists t, cs; auto.
Qed.

Lemma item_0 (x : list float) v : nth_error x 0 = Some v -> item x 0 = v.
Proof. destruct x; simpl; intros H; [discriminate | now injection H]. Qed.

(** ** The claims *)

(** C1. For every derivative function [f], every integer [N >= 2] and all
    floats [xi], [ti], [tf], the sequence [x] returned by [RK4] has [N]
    values, starts with [xi] and satisfies, for every [i] with
    [0 <= i <= N-2]: [x[i+1] = x[i] + (1/6)(k1 + 2*k2 + 2*k3 + k4)], where
    [h = (tf-ti)/N], [t] is the [N]-point grid from [ti] to [tf],
    [k1 = h*f(x[i], t[i])], [k2 = h*f(x[i]+k1/2, t[i]+h/2)],
    [k3 = h*f(x[i]+k2/2, t[i]+h/2)] and [k4 = h*f(x[i]+k3, t[i]+h)].  A
    sequence is returned whenever [N] converts to a float. *)
Theorem RK4_update_rule f N xi ti tf tr :
  (2 <= N)%Z ->
  ((N < float_int_bound)%Z -> exists x tr', RK4 f N xi ti tf tr = Returns x tr') /\
  forall x tr', RK4 f N xi ti tf tr = Returns x tr' ->
    exists t,
      np.linspace ti tf N [] = Returns t [] /\
      Z.of_nat (length x) = N /\
      nth_error x 0 = Some xi /\
      forall i : nat, (Z.of_nat i <= N - 2)%Z ->
        let h := (tf - ti) / of_Z N in
        let k1 := h * f (item x i) (item t i) in
        let k2 := h * f (item x i + k1 / 2) (item t i + h / 2) in
        let k3 := h * f (item x i + k2 / 2) (item t i + h / 2) in
        let k4 := h * f (item x i + k3) (item t i + h) in
        item x (i + 1) = item x i + 1 / 6 * (k1 + 2 * k2 + 2 * k3 + k4).
Proof.
  intros HN; split.
  - intros HB.
    destruct (RK4_run f N xi ti tf tr) as (t & x & cs & _ & _ & Hx & _);
      [lia | lia |]. eauto.
  - intros x tr' Hx.
    destruct (run_returns_spec rk4 f N xi ti tf tr x tr' Hx)
      as (_ & t & cs & Ht & Hlen & _ & _ & Hl & H0 & Hs).
    exists t; repeat split; auto.
    + rewrite Hl, Hlen; lia.
    + rewrite nth_error_item by lia. now rewrite H0.
    + intros i Hi. cbv zeta. rewrite Nat.add_1_r, Hs by lia. reflexivity.
Qed.

Lemma RK4_update_rule_witness :
  exists x tr',
    RK4 (fun x t => x + t) 10 1 0 10 [] = Returns x tr' /\
    nth_error x 0 = Some 1 /\
    item x 1 = 1 + 1 / 6 * (1 + 2 * 2 + 2 * 2.5 + 4.5).
Proof.
  destruct (RK4_update_rule (fun x t => x + t) 10 1 0 10 []) as [Htot Hspec];
    [lia|].
  destruct Htot as (x & tr' & Hx); [reflexivity|].
  destruct (Hspec x tr' Hx) as (t & Ht & _ & H0 & Hs).
  exists x, tr'; repeat split; auto.
  change (item x 1) with (item x (0 + 1)); rewrite (Hs 0%nat) by lia.
  rewrite (item_0 x 1 H0).
  vm_compute in Ht; injection Ht as <-.
  vm_compute; reflexivity.
Defined.

(** C2. For every derivative function [f], every integer [N >= 2] and all
    floats [xi], [ti], [tf], the sequence [x] returned by [Euler] has [N]
    values, starts with [xi] and satisfies, for every [i] with
    [0 <= i <= N-2]: [x[i+1] = x[i] + h * f(x[i], t[i])], where
    [h = (tf-ti)/N] is the same constant at every step and [t[i]] is the
    [i]-th point of the [N]-point grid from [ti] to [tf], whose spacing is
    [(tf-ti)/(N-1)].  A sequence is returned whenever [N] converts to a
    float. *)
Theorem Euler_update_rule f N xi ti tf tr :
  (2 <= N)%Z ->
  ((N < float_int_bound)%Z -> exists x tr', Euler f N xi ti tf tr = Returns x tr') /\
  forall x tr', Euler f N xi ti tf tr = Returns x tr' ->
    exists t,
      np.linspace ti tf N [] = Returns t [] /\
      Z.of_nat (length x) = N /\
      nth_error x 0 = Some xi /\
      forall i : nat, (Z.of_nat i <= N - 2)%Z ->
        let h := (tf - ti) / of_Z N in
        item x (i + 1) = item x i + h * f (item x i) (item t i) /\
        item t i = grid_point ti tf N i.
Proof.
  intros HN; split.
  - intros HB.
    destruct (Euler_run f N xi ti tf tr) as (t & x & cs & _ & _ & Hx & _);
      [lia | lia |]. eauto.
  - intros x tr' Hx.
    destruct (run_returns_spec euler f N xi ti tf tr x tr' Hx)
      as (_ & t & cs & Ht & Hlen & _ & _ & Hl & H0 & Hs).
    exists t; repeat split; auto.
    + rewrite Hl, Hlen; lia.
    + rewrite nth_error_item by lia. now rewrite H0.
    + rewrite Nat.add_1_r, Hs by lia. reflexivity.
    + apply (linspace_items ti tf N t [] HN Ht); lia.
Qed.

Lemma Euler_update_rule_witness :
  exists x tr',
    Euler (fun x t => x + t) 10 1 0 10 [] = Returns x tr' /\
    nth_error x 0 = Some 1 /\
    item x 1 = 1 + 1 * (1 + 0) /\
    item x 2 = item x 1 + 1 * (item x 1 + (1 * (10 / 9) + 0)).
Proof.
  destruct (Euler_update_rule (fun x t => x + t) 10 1 0 10 []) as [Htot Hspec];
    [lia|].
  destruct Htot as (x & tr' & Hx); [reflexivity|].
  destruct (Hspec x tr' Hx) as (t & Ht & _ & H0 & Hs).
  exists x, tr'; repeat split; auto.
  - change (item x 1) with (item x (0 + 1)).
    destruct (Hs 0%nat) as [-> Hg]; [lia|]. rewrite Hg, (item_0 x 1 H0).
    vm_compute; reflexivity.
  - change (item x 2) with (item x (1 + 1)).
    destruct (Hs 1%nat) as [-> Hg]; [lia|]. rewrite Hg.
    change (item x (0 + 1)) with (item x 1).
    vm_compute (grid_point 0 10 10 1). vm_compute (1 * (10 / 9) + 0).
    vm_compute ((10 - 0) / of_Z 10). reflexivity.
Defined.

(** C3. For every derivative function [f], every integer [N >= 2] and all
    floats [xi], [ti], [tf], the sequence [x] returned by [RK2] has [N]
    values, starts with [xi] and satisfies, for every [i] with
    [0 <= i <= N-2]: [x[i+1] = x[i] + k2], where [h = (tf-ti)/N], [t] is the
    [N]-point grid from [ti] to [tf], [k1 = h * f(x[i], t[i])] and
    [k2 = h * f(x[i] + k1/2, t[i] + h/2)]; [k1] enters only through the point
    at which [k2] is evaluated.  A sequence is returned whenever [N]
    converts to a float. *)
Theorem RK2_update_rule f N xi ti tf tr :
  (2 <= N)%Z ->
  ((N < float_int_bound)%Z -> exists x tr', RK2 f N xi ti tf tr = Returns x tr') /\
  forall x tr', RK2 f N xi ti tf tr = Returns x tr' ->
    exists t,
      np.linspace ti tf N [] = Returns t [] /\
      Z.of_nat (length x) = N /\
      nth_error x 0 = Some xi /\
      forall i : nat, (Z.of_nat i <= N - 2)%Z ->
        let h := (tf - ti) / of_Z N in
        let k1 := h * f (item x i) (item t i) in
        let k2 := h * f (item x i + k1 / 2) (item t i + h / 2) in
        item x (i + 1) = item x i + k2.
Proof.
  intros HN; split.
  - intros HB.
    destruct (RK2_run f N xi ti tf tr) as (t & x & cs & _ & _ & Hx & _);
      [lia | lia |]. eauto.
  - intros x tr' Hx.
    destruct (run_returns_spec rk2 f N xi ti tf tr x tr' Hx)
      as (_ & t & cs & Ht & Hlen & _ & _ & Hl & H0 & Hs).
    exists t; repeat split; auto.
    + rewrite Hl, Hlen; lia.
    + rewrite nth_error_item by lia. now rewrite H0.
    + intros i Hi. cbv zeta. rewrite Nat.add_1_r, Hs by lia. reflexivity.
Qed.

Lemma RK2_update_rule_witness :
  exists x tr',
    RK2 (fun x t => x + t) 10 1 0 10 [] = Returns x tr' /\
    nth_error x 0 = Some 1 /\
    item x 1 = 1 + 1 * ((1 + 1 / 2) + (0 + 1 / 2)).
Proof.
  destruct (RK2_update_rule (fun x t => x + t) 10 1 0 10 []) as [Htot Hspec];
    [lia|].
  destruct Htot as (x & tr' & Hx); [reflexivity|].
  destruct (Hspec x tr' Hx) as (t & Ht & _ & H0 & Hs).
  exists x, tr'; repeat split; auto.
  change (item x 1) with (item x (0 + 1)); rewrite (Hs 0%nat) by lia.
  rewrite (item_0 x 1 H0).
  vm_compute in Ht; injection Ht as <-.
  vm_compute; reflexivity.
Defined.

(** C4. For every stepper ([Euler], [RK2], [RK4]), every derivative
    function [f], every integer [N >= 1] and all floats [xi], [ti], [tf],
    the returned sequence has length exactly [N] and its first element
    [x[0]] is [xi] itself.  A sequence is returned whenever [N] converts to
    a float. *)
Theorem stepper_length_and_seed (m : method) f N xi ti tf tr :
  (1 <= N)%Z ->
  ((N < float_int_bound)%Z -> exists x tr', run m f N xi ti tf tr = Returns x tr') /\
  forall x tr', run m f N xi ti tf tr = Returns x tr' ->
    Z.of_nat (length x) = N /\ nth_error x 0 = Some xi.
Proof.
  intros HN; split.
  - intros HB.
    destruct (run_ok m f N xi ti tf tr) as (t & x & cs & _ & _ & Hx & _);
      [lia | lia |]. eauto.
  - intros x tr' Hx.
    destruct (run_returns_spec m f N xi ti tf tr x tr' Hx)
      as (_ & t & cs & Ht & Hlen & _ & _ & Hl & H0 & Hs).
    split.
    + rewrite Hl, Hlen; lia.
    + rewrite nth_error_item by lia. now rewrite H0.
Qed.

Lemma stepper_length_and_seed_witness :
  exists x tr',
    run rk4 (fun x t => x + t) 10%Z 5 0 10 [] = Returns x tr' /\
    Z.of_nat (length x) = 10%Z /\
    nth_error x 0 = Some 5.
Proof.
  destruct (stepper_length_and_seed rk4 (fun x t => x + t) 10%Z 5 0 10 [])
    as [Htot Hspec]; [lia|].
  destruct Htot as (x & tr' & Hx); [reflexivity|].
  exists x, tr'; split; [exact Hx | exact (Hspec x tr' Hx)].
Defined.

(** C7 fails as stated.  With [N = 2^1024] the conversion of [N] in
    [(tf-ti)/N] raises OverflowError: the call ends without a single
    application of [f], where the claim counts [N - 1] of them for
    [Euler]. *)
Lemma stepper_call_count_counterexample :
  let N := (2 ^ 1024)%Z in
  (1 <= N)%Z /\
  run euler (fun x t => x + t) N 0 0 1 [] = Raises OverflowError [] /\
  Z.of_nat (length (calls (run euler (fun x t => x + t) N 0 0 1 [])))
  <> (Z.of_nat (stages euler) * (N - 1))%Z.
Proof.
  repeat split; vm_compute; discriminate.
Qed.

(** C7, amended.  For every derivative function [f], every integer [N] with
    [1 <= N < 2^1024 - 2^970] (the integers from 1 on that convert to a
    float) and all floats [xi], [ti], [tf], a call of a stepper applies [f]
    exactly (stages per step) * (N-1) times: [N-1] times for [Euler],
    [2*(N-1)] for [RK2], [4*(N-1)] for [RK4]; when [N = 1] it returns the
    one-element sequence [[xi]] and does not apply [f] at all.  For
    [N >= 2^1024 - 2^970] the call raises OverflowError and does not apply
    [f]. *)
Theorem stepper_call_count (m : method) f N xi ti tf tr :
  (1 <= N)%Z ->
  ((N < float_int_bound)%Z ->
   exists x cs,
     run m f N xi ti tf tr = Returns x (cs ++ tr) /\
     Z.of_nat (length cs) = (Z.of_nat (stages m) * (N - 1))%Z /\
     (N = 1%Z -> x = [xi] /\ cs = [])) /\
  ((float_int_bound <= N)%Z ->
   run m f N xi ti tf tr = Raises OverflowError tr).
Proof.
  intros HN; split.
  - intros HB.
    destruct (run_ok m f N xi ti tf tr)
      as (t & x & cs & _ & Hlen & Hx & Hcs & Hl & H0 & _); [lia | lia |].
    exists x, cs; repeat split; auto.
    + rewrite Hcs, Nat2Z.inj_mul; f_equal; lia.
    + subst N. rewrite Hlen in Hl. unfold item in H0.
      destruct x as [|a [|b x]]; simpl in *; try discriminate. now subst a.
    + subst N. simpl in Hcs. rewrite Nat.mul_0_r in Hcs.
      now destruct cs.
  - intros HB. apply run_overflow. lia.
Qed.

Lemma stepper_call_count_witness :
  exists x cs,
    run rk4 (fun x t => x + t) 10%Z 1 0 10 [] = Returns x (cs ++ []) /\
    Z.of_nat (length cs) = 36%Z.
Proof.
  destruct (stepper_call_count rk4 (fun x t => x + t) 10%Z 1 0 10 [])
    as [Hin _]; [lia|].
  destruct Hin as (x & cs & Hx & Hcs & _); [reflexivity|].
  exists x, cs; split; [exact Hx | exact Hcs].
Defined.

(** C8 fails as stated.  With [N = -2^1024] the call fails, but the error
    is raised by the division [(tf-ti)/N] (OverflowError, from the
    conversion of [N]) and not by the construction of the grid, which is
    never reached. *)
Lemma stepper_nonpositive_N_counterexample :
  let N := (- 2 ^ 1024)%Z in
  (N < 0)%Z /\
  truediv (1 - 0) N [] = Raises OverflowError [] /\
  run euler (fun x t => x + t) N 0 0 1 [] = Raises OverflowError [] /\
  np.linspace 0 1 N [] = Raises ValueError [].
Proof.
  repeat split.
Qed.

(** C8, amended.  For every stepper, every derivative function [f] and all
    floats [xi], [ti], [tf], a call with [N <= 0] raises an exception
    instead of returning a sequence, and [f] is not applied: the division
    [(tf-ti)/N] raises ZeroDivisionError when [N = 0] and OverflowError when
    [N <= -(2^1024 - 2^970)]; for [-(2^1024 - 2^970) < N < 0] the division
    succeeds and the construction of the [N]-point grid raises
    ValueError. *)
Theorem stepper_nonpositive_N_raises (m : method) f N xi ti tf tr :
  (N <= 0)%Z ->
  (N = 0%Z ->
   truediv (tf - ti) N tr = Raises ZeroDivisionError tr /\
   run m f N xi ti tf tr = Raises ZeroDivisionError tr) /\
  ((N <= - float_int_bound)%Z ->
   truediv (tf - ti) N tr = Raises OverflowError tr /\
   run m f N xi ti tf tr = Raises OverflowError tr) /\
  ((- float_int_bound < N < 0)%Z ->
   truediv (tf - ti) N tr = Returns ((tf - ti) / of_Z N) tr /\
   np.linspace ti tf N tr = Raises ValueError tr /\
   run m f N xi ti tf tr = Raises ValueError tr).
Proof.
  intros HN. pose proof float_int_bound_pos as Hpos. repeat split.
  - subst N. apply truediv_zero.
  - subst N. apply run_zero.
  - apply truediv_overflow. lia.
  - apply run_overflow. lia.
  - apply truediv_ok; lia.
  - apply linspace_raises; lia.
  - apply run_negative; lia.
Qed.

Lemma stepper_nonpositive_N_raises_witness :
  run euler (fun x t => x + t) 0%Z 0 0 10 [] = Raises ZeroDivisionError [] /\
  run rk2 (fun x t => x + t) (-3)%Z 0 0 10 [] = Raises ValueError [] /\
  run rk4 (fun x t => x + t) (- 2 ^ 1024)%Z 0 0 10 [] = Raises OverflowError [].
Proof.
  split; [|split].
  - destruct (stepper_nonpositive_N_raises euler (fun x t => x + t) 0%Z 0 0 10 [])
      as (H0 & _ & _); [lia|].
    apply H0; reflexivity.
  - destruct (stepper_nonpositive_N_raises rk2 (fun x t => x + t) (-3)%Z 0 0 10 [])
      as (_ & _ & Hn); [lia|].
    apply Hn; split; reflexivity.
  - destruct (stepper_nonpositive_N_raises rk4 (fun x t => x + t) (- 2 ^ 1024)%Z
                0 0 10 []) as (_ & Ho & _); [vm_compute; discriminate|].
    apply Ho; vm_compute; discriminate.
Defined.

(** C5 fails as stated.  With three samples between 1 and the next binary64
    value above 1 the end points differ but the first two grid points are
    equal, so the grid is not strictly monotonic; when [tf - ti] overflows,
    the first grid point is not [ti] (it is NaN); and the one-point grid
    ends with [ti], not with [tf]. *)
Lemma time_grid_counterexample :
  (exists t,
     np.linspace 1 0x1.0000000000001p+0 3 [] = Returns t [] /\
     1 <> 0x1.0000000000001p+0 /\
     item t 0 = item t 1) /\
  (exists t,
     np.linspace (-0x1.ep+1023) 0x1.ep+1023 2 [] = Returns t [] /\
     item t 0 <> -0x1.ep+1023) /\
  (exists t,
     np.linspace 0 1 1 [] = Returns t [] /\
     item t (length t - 1) <> 1).
Proof.
  repeat split.
  - eexists; split; [vm_compute; reflexivity|]. split.
    + apply float_neq; vm_compute; discriminate.
    + reflexivity.
  - eexists; split; [vm_compute; reflexivity|].
    apply float_neq; vm_compute; discriminate.
  - eexists; split; [vm_compute; reflexivity|].
    apply float_neq; vm_compute; discriminate.
Qed.

(** C5, amended.  For every integer [N >= 1] and all floats [ti], [tf] the
    grid built by each stepper has exactly [N] values.  For [N = 1] it is the
    single value [0*(tf-ti) + ti].  For [N >= 2] its last element is [tf] and
    its element [i < N-1] is [i*step + ti] with [step = (tf-ti)/(N-1)]
    ([(i/(N-1))*(tf-ti) + ti] when [step] rounds to zero), every operation
    rounded to binary64.  Its first element is [ti] whenever [ti] is not the
    negative zero and the value multiplied by zero ([tf-ti] for [N = 1],
    [step] for [N >= 2]) is finite.  Strict monotonicity is not part of the
    statement. *)
Theorem time_grid ti tf N tr :
  (1 <= N)%Z ->
  exists t,
    np.linspace ti tf N tr = Returns t tr /\
    Z.of_nat (length t) = N /\
    (N = 1%Z -> t = [0 * (tf - ti) + ti]) /\
    (2 <= N ->
       item t (Z.to_nat N - 1) = tf /\
       forall i : nat, Z.of_nat i <= N - 2 -> item t i = grid_point ti tf N i)%Z /\
    (ti <> (-0)%float ->
     finite (if (N =? 1)%Z then tf - ti else (tf - ti) / of_Z (N - 1)) = true ->
     item t 0 = ti).
Proof.
  intros HN.
  destruct (linspace_returns ti tf N tr) as (t & Ht & Hlen); [lia|].
  exists t; split; [exact Ht|]. split; [lia|].
  assert (H1 : N = 1%Z -> t = [0 * (tf - ti) + ti]).
  { intros ->. rewrite linspace_single in Ht. now injection Ht as <-. }
  assert (H2 : (2 <= N)%Z ->
               item t (Z.to_nat N - 1) = tf /\
               forall i : nat, (Z.of_nat i <= N - 2)%Z ->
                               item t i = grid_point ti tf N i).
  { intros HN2. destruct (linspace_items ti tf N t tr HN2 Ht) as [Hlast Hi].
    split; [exact Hlast|]. intros i Hi'. apply Hi; lia. }
  repeat split; try (apply H1 || apply H2); auto.
  intros Hti Hfin. destruct (Z.eqb_spec N 1) as [->|Hne].
  - rewrite (H1 eq_refl). apply add_zero_l; auto.
    apply mul_zero_finite; auto.
  - destruct H2 as [_ Hi]; [lia|]. rewrite (Hi 0%nat) by lia.
    now apply grid_point_first.
Qed.

Lemma time_grid_witness :
  exists t,
    np.linspace 0 10 10 [] = Returns t [] /\
    Z.of_nat (length t) = 10%Z /\
    item t 9 = 10 /\
    item t 0 = 0.
Proof.
  destruct (time_grid 0 10 10 []) as (t & Ht & Hlen & _ & H2 & H0); [lia|].
  destruct H2 as [Hlast _]; [lia|].
  exists t; repeat split; auto.
  apply H0; [apply float_neq; vm_compute; discriminate | vm_compute; reflexivity].
Defined.

(** C6 fails as stated.  With [f(x,t) = 1], [N = 10], [xi = 0], [ti = 0],
    [tf = 1], the value [x[6]] (six rounded additions of [h]) is not the
    closed form [xi + 6*h*c]. *)
Lemma Euler_closed_form_counterexample :
  exists x tr',
    Euler (fun _ _ => 1) 10 0 0 1 [] = Returns x tr' /\
    item x 6 <> 0 + of_Z 6 * ((1 - 0) / of_Z 10) * 1.
Proof.
  do 2 eexists; split; [vm_compute; reflexivity|].
  apply float_neq; vm_compute; discriminate.
Qed.

(** C6, amended.  For the constant derivative function [f(x,t) = c], every
    integer [N >= 1] and all floats [xi], [ti], [tf], the sequence returned
    by [Euler] has [x[0] = xi] and [x[i] = x[i-1] + h*c] for [1 <= i <= N-1],
    with [h = (tf-ti)/N]: [x[i]] is [xi] with the rounded product [h*c]
    added [i] times, each sum rounded to binary64.  A sequence is returned
    whenever [N] converts to a float. *)
Theorem Euler_constant_rate c N xi ti tf tr :
  (1 <= N)%Z ->
  ((N < float_int_bound)%Z ->
   exists x tr', Euler (fun _ _ => c) N xi ti tf tr = Returns x tr') /\
  forall x tr', Euler (fun _ _ => c) N xi ti tf tr = Returns x tr' ->
    Z.of_nat (length x) = N /\
    forall i : nat, (Z.of_nat i <= N - 1)%Z ->
      item x i = add_times ((tf - ti) / of_Z N * c) i xi.
Proof.
  intros HN; split.
  - intros HB.
    destruct (Euler_run (fun _ _ => c) N xi ti tf tr)
      as (t & x & cs & _ & _ & Hx & _); [lia | lia |]. eauto.
  - intros x tr' Hx.
    destruct (run_returns_spec euler (fun _ _ => c) N xi ti tf tr x tr' Hx)
      as (_ & t & cs & Ht & Hlen & _ & _ & Hl & H0 & Hs).
    split.
    + rewrite Hl, Hlen; lia.
    + induction i as [|i IH]; intros Hi; simpl.
      * exact H0.
      * rewrite Hs by lia. simpl. unfold euler_step. rewrite IH by lia.
        reflexivity.
Qed.

Lemma Euler_constant_rate_witness :
  exists x tr',
    Euler (fun _ _ => 1) 10 3 0 1 [] = Returns x tr' /\
    item x 2 = 3 + 1 / 10 + 1 / 10.
Proof.
  destruct (Euler_constant_rate 1 10 3 0 1 []) as [Htot Hspec]; [lia|].
  destruct Htot as (x & tr' & Hx); [reflexivity|].
  destruct (Hspec x tr' Hx) as (_ & Hi).
  exists x, tr'; split; [exact Hx|].
  rewrite (Hi 2%nat) by lia. vm_compute; reflexivity.
Defined.

(** C10 fails as stated.  With [f(x,t) = 1], [N = 10], [xi = 0], [ti = 0],
    [tf = 1], [Euler] and [RK4] return different sequences: the weighted sum
    [(1/6)(k + 2k + 2k + k)] of [RK4] is rounded to a value other than
    [k = h*c]. *)
Lemma constant_rate_counterexample :
  exists xe x4 tre tr4,
    Euler (fun _ _ => 1) 10 0 0 1 [] = Returns xe tre /\
    RK4 (fun _ _ => 1) 10 0 0 1 [] = Returns x4 tr4 /\
    xe <> x4.
Proof.
  do 4 eexists; split; [vm_compute; reflexivity|].
  split; [vm_compute; reflexivity|].
  intros E. apply (f_equal (fun l => Prim2SF (item l 1))) in E.
  vm_compute in E. discriminate.
Qed.

(** C10, amended.  For every constant derivative function [f(x,t) = c],
    every integer [N >= 1] and all floats [xi], [ti], [tf], [Euler] and [RK2]
    return identical sequences, each step adding [k = h*c]; [RK4] returns the
    sequence whose steps add [(1/6)(k + 2k + 2k + k)], every operation
    rounded to binary64.  The sequences are returned whenever [N] converts
    to a float. *)
Theorem constant_rate_steppers c N xi ti tf tr :
  (1 <= N)%Z ->
  let k := (tf - ti) / of_Z N * c in
  ((N < float_int_bound)%Z ->
   exists x tre, Euler (fun _ _ => c) N xi ti tf tr = Returns x tre) /\
  forall x tre, Euler (fun _ _ => c) N xi ti tf tr = Returns x tre ->
    exists x4 tr2 tr4,
      RK2 (fun _ _ => c) N xi ti tf tr = Returns x tr2 /\
      RK4 (fun _ _ => c) N xi ti tf tr = Returns x4 tr4 /\
      Z.of_nat (length x) = N /\
      Z.of_nat (length x4) = N /\
      forall i : nat, (Z.of_nat i <= N - 1)%Z ->
        item x i = add_times k i xi /\
        item x4 i = add_times (1 / 6 * (k + 2 * k + 2 * k + k)) i xi.
Proof.
  intros HN k; split.
  - intros HB.
    destruct (Euler_run (fun _ _ => c) N xi ti tf tr)
      as (t & x & cs & _ & _ & Hx & _); [lia | lia |]. eauto.
  - intros x tre Hx.
    destruct (run_returns_spec euler (fun _ _ => c) N xi ti tf tr x tre Hx)
      as (HB & t & cs & Ht & Hlen & _ & _ & Htraj).
    destruct (RK2_run (fun _ _ => c) N xi ti tf tr)
      as (t2 & x2 & cs2 & Ht2 & _ & Hx2 & _ & Htraj2); [lia | lia |].
    destruct (RK4_run (fun _ _ => c) N xi ti tf tr)
      as (t4 & x4 & cs4 & Ht4 & Hlen4 & Hx4 & _ & Hl4 & H04 & Hs4); [lia | lia |].
    assert (t2 = t) as -> by congruence.
    assert (x2 = x) as ->.
    { eapply trajectory_unique; [| exact Htraj2 | exact Htraj]. reflexivity. }
    destruct Htraj as (Hl & H0 & Hs).
    exists x4, (cs2 ++ tr), (cs4 ++ tr); repeat split; auto.
    + rewrite Hl, Hlen; lia.
    + rewrite Hl4, Hlen4; lia.
    + induction i as [|i IH]; simpl.
      * exact H0.
      * rewrite Hs by lia. simpl. unfold euler_step. rewrite IH by lia.
        reflexivity.
    + induction i as [|i IH]; simpl.
      * exact H04.
      * rewrite Hs4 by lia. unfold rk4_step. rewrite IH by lia. reflexivity.
Qed.

Lemma constant_rate_steppers_witness :
  exists x tre tr2,
    Euler (fun _ _ => 1) 10 3 0 1 [] = Returns x tre /\
    RK2 (fun _ _ => 1) 10 3 0 1 [] = Returns x tr2 /\
    item x 1 = 3 + 1 / 10.
Proof.
  destruct (constant_rate_steppers 1 10 3 0 1 []) as [Htot Hspec]; [lia|].
  destruct Htot as (x & tre & He); [reflexivity|].
  destruct (Hspec x tre He) as (x4 & tr2 & tr4 & H2 & _ & _ & _ & Hi).
  exists x, tre, tr2; repeat split; auto.
  destruct (Hi 1%nat) as [-> _]; [lia|]. vm_compute; reflexivity.
Defined.

(** ** Further properties of the three functions *)

(** *** Where [f] is evaluated *)

Section LoopTrace.

Variable t : list float.
Variable g : float -> float -> float.
Variable pts : float -> float -> trace.
Variable body : nat -> list float -> M (list float).

Hypothesis body_pts : forall i x tr,
  (S i < length x)%nat -> (i < length t)%nat ->
  body i x tr
  = Returns (upd x (S i) (g (item x i) (item t i)))
            (pts (item x i) (item t i) ++ tr).

Lemma for_range_from_trace : forall n i x tr,
  (i + n < length x)%nat -> (i + n <= length t)%nat ->
  exists x',
    for_range_from n i body x tr
    = Returns x'
        (flat_map (fun j => pts (item x' j) (item t j)) (rev (seq i n)) ++ tr) /\
    length x' = length x /\
    (forall j, (j <= i)%nat -> item x' j = item x j).
Proof.
  induction n as [|n IH]; intros i x tr Hx Ht.
  - exists x; simpl; auto.
  - set (x1 := upd x (S i) (g (item x i) (item t i))).
    destruct (IH (S i) x1 (pts (item x i) (item t i) ++ tr))
      as (x' & Hrun & Hlen & Hlow).
    { unfold x1; rewrite upd_length; lia. }
    { lia. }
    assert (Hi : item x' i = item x i).
    { rewrite Hlow by lia. apply item_upd_neq; lia. }
    exists x'; repeat split.
    + simpl for_range_from. unfold bind. rewrite body_pts by lia.
      fold x1. rewrite Hrun.
      simpl seq. simpl rev. rewrite flat_map_app. simpl flat_map.
      rewrite app_nil_r, Hi, app_assoc. reflexivity.
    + rewrite Hlen; apply upd_length.
    + intros j Hj. rewrite Hlow by lia. apply item_upd_neq; lia.
Qed.

End LoopTrace.

Lemma Euler_body_pts f h t i x tr :
  (S i < length x)%nat -> (i < length t)%nat ->
  bind (getitem x i) (fun a =>
    bind (getitem x i) (fun b =>
      bind (getitem t i) (fun c =>
        bind (call f b c) (fun d => setitem x (i + 1) (a + h * d))))) tr
  = Returns (upd x (S i) (step_rule euler f h (item x i) (item t i)))
            (stage_points euler f h (item x i) (item t i) ++ tr).
Proof. intros Hx Ht. run_body. Qed.

Lemma RK2_body_pts f h t i x tr :
  (S i < length x)%nat -> (i < length t)%nat ->
  bind (getitem x i) (fun a =>
    bind (getitem t i) (fun b =>
      bind (call f a b) (fun d =>
        let k1 := h * d in
        bind (getitem x i) (fun a =>
          bind (getitem t i) (fun b =>
            bind (call f (a + k1 / 2) (b + h / 2)) (fun d =>
              let k2 := h * d in
              bind (getitem x i) (fun a =>
                setitem x (i + 1) (a + k2)))))))) tr
  = Returns (upd x (S i) (step_rule rk2 f h (item x i) (item t i)))
            (stage_points rk2 f h (item x i) (item t i) ++ tr).
Proof. intros Hx Ht. run_body. Qed.

Lemma RK4_body_pts f h t i x tr :
  (S i < length x)%nat -> (i < length t)%nat ->
  bind (getitem x i) (fun a =>
    bind (getitem t i) (fun b =>
      bind (call f a b) (fun d =>
        let k1 := h * d in
        bind (getitem x i) (fun a =>
          bind (getitem t i) (fun b =>
            bind (call f (a + k1 / 2) (b + h / 2)) (fun d =>
              let k2 := h * d in
              bind (getitem x i) (fun a =>
                bind (getitem t i) (fun b =>
                  bind (call f (a + k2 / 2) (b + h / 2)) (fun d =>
                    let k3 := h * d in
                    bind (getitem x i) (fun a =>
                      bind (getitem t i) (fun b =>
                        bind (call f (a + k3) (b + h)) (fun d =>
                          let k4 := h * d in
                          bind (getitem x i) (fun a =>
                            setitem x (i + 1)
                              (a + 1 / 6 * (k1 + 2 * k2 + 2 * k3 + k4))
                        ))))))))))))) tr
  = Returns (upd x (S i) (step_rule rk4 f h (item x i) (item t i)))
            (stage_points rk4 f h (item x i) (item t i) ++ tr).
Proof. intros Hx Ht. run_body. Qed.

(** The loop of a stepper, started on a seeded buffer. *)
Lemma run_loop_trace (m : method) f N xi ti tf tr :
  (1 <= N)%Z -> (N < float_int_bound)%Z ->
  exists t x,
    np.linspace ti tf N [] = Returns t [] /\
    run m f N xi ti tf tr
    = Returns x
        (visited m f ((tf - ti) / of_Z N) x t 0 (Z.to_nat N - 1) ++ tr).
Proof.
  intros HN HB.
  destruct (linspace_returns ti tf N []) as (t & Ht & Hlen); [lia|].
  destruct (linspace_returns ti tf N tr) as (t' & Ht' & _); [lia|].
  assert (t' = t) as ->.
  { unfold np.linspace in *. destruct (N <? 0)%Z; [discriminate|].
    unfold ret in *. congruence. }
  set (h := (tf - ti) / of_Z N).
  set (x0 := upd (np.zeros (length t)) 0 xi).
  assert (Hx0 : length x0 = length t).
  { unfold x0, np.zeros; rewrite upd_length; apply repeat_length. }
  assert (Hpre : forall body,
    bind (truediv (tf - ti) N) (fun h =>
      bind (np.linspace ti tf N) (fun t =>
        let x := np.zeros (length t) in
        bind (setitem x 0 xi) (fun x =>
          for_range (length t - 1) (body h t) x))) tr
    = for_range_from (length t - 1) 0 (body h t) x0 tr).
  { intros body. unfold bind at 1. rewrite (truediv_ok (tf - ti) N tr) by lia.
    unfold bind. rewrite Ht'. cbv zeta.
    rewrite setitem_ok by (unfold np.zeros; rewrite repeat_length; lia).
    reflexivity. }
  exists t.
  destruct m; unfold run, Euler, RK2, RK4; rewrite Hpre; unfold visited;
    rewrite <- Hlen.
  - destruct (for_range_from_trace t (step_rule euler f h)
                (stage_points euler f h) _ (Euler_body_pts f h t)
                (length t - 1)%nat 0%nat x0 tr) as (x & Hrun & _); [lia | lia |].
    exists x; split; [exact Ht | exact Hrun].
  - destruct (for_range_from_trace t (step_rule rk2 f h)
                (stage_points rk2 f h) _ (RK2_body_pts f h t)
                (length t - 1)%nat 0%nat x0 tr) as (x & Hrun & _); [lia | lia |].
    exists x; split; [exact Ht | exact Hrun].
  - destruct (for_range_from_trace t (step_rule rk4 f h)
                (stage_points rk4 f h) _ (RK4_body_pts f h t)
                (length t - 1)%nat 0%nat x0 tr) as (x & Hrun & _); [lia | lia |].
    exists x; split; [exact Ht | exact Hrun].
Qed.

Lemma visited_in m f h x t n p :
  In p (visited m f h x t 0 n) ->
  exists i, (i < n)%nat /\ In p (stage_points m f h (item x i) (item t i)).
Proof.
  unfold visited; intros H. apply in_flat_map in H as (i & Hi & Hp).
  apply in_rev, in_seq in Hi. exists i; split; [lia | exact Hp].
Qed.

Lemma in_visited m f h x t n i p :
  (i < n)%nat -> In p (stage_points m f h (item x i) (item t i)) ->
  In p (visited m f h x t 0 n).
Proof.
  intros Hi Hp. unfold visited. apply in_flat_map. exists i; split; [|exact Hp].
  apply in_rev. rewrite rev_involutive. apply in_seq; lia.
Qed.

(** X1. For every stepper and every [N >= 1] that converts to a float
    ([N < 2^1024 - 2^970]), the calls made to [f] are exactly the stage
    points of the steps [0 .. N-2], step after step along the returned
    trajectory [x] and the grid [t]: each call belongs to a step [i <= N-2],
    so no step starts from the last value [x[N-1]] or the last grid time
    [t[N-1]]. *)
Theorem stepper_evaluation_points (m : method) f N xi ti tf tr :
  (1 <= N)%Z -> (N < float_int_bound)%Z ->
  let h := (tf - ti) / of_Z N in
  exists t x cs,
    np.linspace ti tf N [] = Returns t [] /\
    run m f N xi ti tf tr = Returns x (cs ++ tr) /\
    cs = visited m f h x t 0 (Z.to_nat N - 1) /\
    forall p, In p cs ->
      exists i : nat, (Z.of_nat i <= N - 2)%Z /\
        In p (stage_points m f h (item x i) (item t i)).
Proof.
  intros HN HB h.
  destruct (run_loop_trace m f N xi ti tf tr HN HB) as (t & x & Ht & Hx).
  exists t, x, (visited m f h x t 0 (Z.to_nat N - 1)); repeat split; auto.
  intros p Hp. apply visited_in in Hp as (i & Hi & Hp).
  exists i; split; [lia | exact Hp].
Qed.

Lemma stepper_evaluation_points_witness :
  exists x,
    run euler (fun x t => x + t) 3%Z 1 0 3 []
    = Returns x [(item x 1, 1.5); (item x 0, 0)].
Proof.
  destruct (stepper_evaluation_points euler (fun x t => x + t) 3%Z 1 0 3 [])
    as (t & x & cs & Ht & Hx & Hcs & _); [lia | reflexivity |].
  exists x. rewrite Hx, Hcs.
  vm_compute in Ht; injection Ht as <-.
  reflexivity.
Defined.

(** *** Exceptions *)

(** X2. With a derivative function that returns normally, a stepper raises
    only when [N <= 0] or [N >= 2^1024 - 2^970]: whenever a call ends in an
    exception, [N] is outside the range in which the division and the grid
    succeed, the exception is not an IndexError (every subscript of [x] and
    [t] is within bounds), and [f] has not been applied. *)
Theorem stepper_raises_only_outside_range (m : method) f N xi ti tf tr e tr' :
  run m f N xi ti tf tr = Raises e tr' ->
  (N <= 0 \/ float_int_bound <= N)%Z /\ e <> IndexError /\ tr' = tr.
Proof.
  intros H. pose proof float_int_bound_pos as Hpos.
  destruct (Z_le_gt_dec float_int_bound (Z.abs N)) as [Hb|Hb].
  - rewrite run_overflow in H by assumption.
    injection H as <- <-. repeat split; [lia | discriminate].
  - destruct (Z_le_gt_dec N 0) as [Hle|Hgt].
    + destruct (Z.eq_dec N 0) as [->|Hne].
      * rewrite run_zero in H. injection H as <- <-.
        repeat split; [lia | discriminate].
      * rewrite run_negative in H by lia. injection H as <- <-.
        repeat split; [lia | discriminate].
    + destruct (run_ok m f N xi ti tf tr) as (t & x & cs & _ & _ & Hx & _);
        [lia | lia |].
      congruence.
Qed.

Lemma stepper_raises_only_outside_range_witness :
  exists e tr',
    run rk4 (fun x t => x + t) (-2)%Z 0 0 1 [(1, 2)] = Raises e tr' /\
    e <> IndexError /\ tr' = [(1, 2)].
Proof.
  exists ValueError, [(1, 2)].
  split; [reflexivity|].
  apply (stepper_raises_only_outside_range rk4 (fun x t => x + t) (-2)%Z 0 0 1
           [(1, 2)] ValueError [(1, 2)]).
  reflexivity.
Defined.

(** *** Steps that add a zero *)

Lemma eqb_zero_sf z :
  (z =? 0) = true <-> is_zero_sf (Prim2SF z) = true.
Proof.
  rewrite eqb_spec. change (Prim2SF 0) with (S754_zero false).
  destruct (Prim2SF z) as [s|s| |s m e]; simpl;
    try destruct s; simpl; split; intros H; try discriminate; reflexivity.
Qed.

Lemma mul_finite_zero d z :
  finite d = true -> is_zero_sf (Prim2SF z) = true ->
  is_zero_sf (Prim2SF (d * z)) = true.
Proof.
  intros Hd Hz. rewrite mul_spec. unfold finite in Hd.
  destruct (Prim2SF z); try discriminate;
    destruct (Prim2SF d); try discriminate; reflexivity.
Qed.

Lemma add_zero_r a z :
  is_zero_sf (Prim2SF z) = true -> a <> (-0)%float -> a + z = a.
Proof.
  intros Hz Ha. apply Prim2SF_inj. rewrite add_spec.
  destruct (Prim2SF z) as [s| | |]; try discriminate.
  destruct (Prim2SF a) as [s'| | |] eqn:E; try reflexivity.
  destruct s'.
  - exfalso; apply Ha; apply Prim2SF_inj; rewrite E; reflexivity.
  - destruct s; reflexivity.
Qed.

Lemma add_zero_zero z z' :
  is_zero_sf (Prim2SF z) = true -> is_zero_sf (Prim2SF z') = true ->
  is_zero_sf (Prim2SF (z + z')) = true.
Proof.
  intros Hz Hz'. rewrite add_spec.
  destruct (Prim2SF z) as [s| | |]; try discriminate.
  destruct (Prim2SF z') as [s'| | |]; try discriminate.
  destruct s, s'; reflexivity.
Qed.

Lemma half_zero z :
  is_zero_sf (Prim2SF z) = true -> is_zero_sf (Prim2SF (z / 2)) = true.
Proof.
  intros Hz. rewrite div_spec.
  destruct (Prim2SF z) as [s| | |]; try discriminate.
  destruct s; reflexivity.
Qed.

Lemma twice_zero z :
  is_zero_sf (Prim2SF z) = true -> is_zero_sf (Prim2SF (2 * z)) = true.
Proof. apply mul_finite_zero. reflexivity. Qed.

Lemma sixth_zero z :
  is_zero_sf (Prim2SF z) = true -> is_zero_sf (Prim2SF (1 / 6 * z)) = true.
Proof. apply mul_finite_zero. reflexivity. Qed.

(** A step from [x] returns [x] when every increment [h * f x t'] is a zero. *)
Lemma step_rule_fixed (m : method) f h x t :
  x <> (-0)%float ->
  (forall t', is_zero_sf (Prim2SF (h * f x t')) = true) ->
  step_rule m f h x t = x.
Proof.
  intros Hx K.
  assert (E : forall z, is_zero_sf (Prim2SF z) = true -> x + z = x)
    by (intros; now apply add_zero_r).
  destruct m; simpl; unfold euler_step, rk2_step, rk4_step; cbv zeta.
  - apply E, K.
  - rewrite (E (h * f x t / 2)) by apply half_zero, K. apply E, K.
  - rewrite (E (h * f x t / 2)) by apply half_zero, K.
    rewrite (E (h * f x (t + h / 2) / 2)) by apply half_zero, K.
    rewrite (E (h * f x (t + h / 2))) by apply K.
    apply E, sixth_zero.
    repeat apply add_zero_zero; try apply twice_zero; apply K.
Qed.

Lemma item_repeat (a : float) n i : (i < n)%nat -> item (repeat a n) i = a.
Proof.
  unfold item; revert i; induction n as [|n IH]; intros [|i] H; simpl;
    try lia; auto.
  apply IH; lia.
Qed.

Lemma constant_run (m : method) f N xi ti tf tr :
  (1 <= N)%Z -> (N < float_int_bound)%Z ->
  xi <> (-0)%float ->
  (forall t', is_zero_sf (Prim2SF ((tf - ti) / of_Z N * f xi t')) = true) ->
  exists tr', run m f N xi ti tf tr = Returns (repeat xi (Z.to_nat N)) tr'.
Proof.
  intros HN HB Hxi K.
  destruct (run_ok m f N xi ti tf tr)
    as (t & x & cs & _ & Hlen & Hx & _ & Hl & H0 & Hs); [lia | lia |].
  exists (cs ++ tr). rewrite Hx. f_equal.
  assert (Hall : forall i, (i < length t)%nat -> item x i = xi).
  { induction i as [|i IH]; intros Hi; [exact H0|].
    rewrite Hs, IH by lia. now apply step_rule_fixed. }
  apply item_eq_ext.
  - rewrite repeat_length; congruence.
  - intros i Hi. rewrite item_repeat by lia. apply Hall; lia.
Qed.

(** X3. An equilibrium is kept exactly: if [f(xi, t)] is zero at every time
    [t], the step [h = (tf-ti)/N] is finite and [xi] is not the negative
    zero, then every stepper returns [N] copies of [xi], for every [N >= 1]
    that converts to a float ([N < 2^1024 - 2^970]). *)
Theorem equilibrium_preserved (m : method) f N xi ti tf tr :
  (1 <= N)%Z -> (N < float_int_bound)%Z ->
  xi <> (-0)%float ->
  finite ((tf - ti) / of_Z N) = true ->
  (forall t, (f xi t =? 0) = true) ->
  exists tr', run m f N xi ti tf tr = Returns (repeat xi (Z.to_nat N)) tr'.
Proof.
  intros HN HB Hxi Hh Hf. apply constant_run; auto.
  intros t'. apply mul_finite_zero; [exact Hh|]. apply eqb_zero_sf, Hf.
Qed.

Lemma equilibrium_preserved_witness :
  exists tr',
    run rk4 (fun x t => (x - 1) * x) 4%Z 1 0 2 [] = Returns [1; 1; 1; 1] tr'.
Proof.
  apply (equilibrium_preserved rk4 (fun x t => (x - 1) * x) 4%Z 1 0 2 []).
  - lia.
  - reflexivity.
  - apply float_neq; vm_compute; discriminate.
  - reflexivity.
  - intros t; reflexivity.
Defined.

(** X4. A step of size zero moves nothing: if [h = (tf-ti)/N] is zero (as
    when [tf = ti]), [f(xi, t)] is finite at every time [t] and [xi] is not
    the negative zero, then every stepper returns [N] copies of [xi], for
    every [N >= 1] that converts to a float ([N < 2^1024 - 2^970]). *)
Theorem zero_step_constant (m : method) f N xi ti tf tr :
  (1 <= N)%Z -> (N < float_int_bound)%Z ->
  xi <> (-0)%float ->
  ((tf - ti) / of_Z N =? 0) = true ->
  (forall t, finite (f xi t) = true) ->
  exists tr', run m f N xi ti tf tr = Returns (repeat xi (Z.to_nat N)) tr'.
Proof.
  intros HN HB Hxi Hh Hf. apply constant_run; auto.
  intros t'. apply mul_zero_finite; [|apply Hf]. apply eqb_zero_sf, Hh.
Qed.

Lemma zero_step_constant_witness :
  exists tr',
    run rk2 (fun x t => x * x) 3%Z 5 2 2 [] = Returns [5; 5; 5] tr'.
Proof.
  apply (zero_step_constant rk2 (fun x t => x * x) 3%Z 5 2 2 []).
  - lia.
  - reflexivity.
  - apply float_neq; vm_compute; discriminate.
  - reflexivity.
  - intros t; reflexivity.
Defined.

(** *** NaN *)

Lemma nan_add a : nan + a = nan.
Proof.
  apply Prim2SF_inj. rewrite add_spec.
  change (Prim2SF nan) with S754_nan. reflexivity.
Qed.

Lemma step_rule_nan (m : method) f h t : step_rule m f h nan t = nan.
Proof. destruct m; apply nan_add. Qed.

(** X5. NaN is never repaired: for every stepper and every [N >= 1] that
    converts to a float ([N < 2^1024 - 2^970]), once an element [x[i]] of the
    returned sequence is NaN, every later element [x[j]], [i <= j <= N-1],
    is NaN, whatever [f] returns. *)
Theorem nan_propagates (m : method) f N xi ti tf tr :
  (1 <= N)%Z -> (N < float_int_bound)%Z ->
  exists x tr',
    run m f N xi ti tf tr = Returns x tr' /\
    forall i j : nat, (i <= j)%nat -> (Z.of_nat j <= N - 1)%Z ->
      item x i = nan -> item x j = nan.
Proof.
  intros HN HB.
  destruct (run_ok m f N xi ti tf tr)
    as (t & x & cs & _ & Hlen & Hx & _ & Hl & H0 & Hs); [lia | lia |].
  exists x, (cs ++ tr); split; [exact Hx|].
  intros i j Hij. induction Hij as [|j Hij IH]; intros Hj Hi; [exact Hi|].
  rewrite Hs by lia. rewrite IH; [apply step_rule_nan | lia | exact Hi].
Qed.

Lemma nan_propagates_witness :
  exists x tr',
    run euler (fun x t => 1) 3%Z nan 0 1 [] = Returns x tr' /\ item x 2 = nan.
Proof.
  destruct (nan_propagates euler (fun x t => 1) 3%Z nan 0 1 [])
    as (x & tr' & Hx & Hnan); [lia | reflexivity |].
  exists x, tr'; split; [exact Hx|].
  apply (Hnan 0%nat 2%nat); [lia | lia |].
  vm_compute in Hx; injection Hx as <- _. reflexivity.
Defined.

(** *** What the result depends on *)

Lemma stage_agree (m : method) f g h x t :
  (forall a b, In (a, b) (stage_points m f h x t) -> g a b = f a b) ->
  step_rule m g h x t = step_rule m f h x t /\
  stage_points m g h x t = stage_points m f h x t.
Proof.
  destruct m; simpl; unfold euler_step, rk2_step, rk4_step; cbv zeta; intros H.
  - rewrite (H x t) by auto. auto.
  - rewrite (H x t) by auto.
    rewrite (H (x + h * f x t / 2) (t + h / 2)) by auto. auto.
  - rewrite (H x t) by auto 6.
    rewrite (H (x + h * f x t / 2) (t + h / 2)) by auto 6.
    rewrite (H (x + h * f (x + h * f x t / 2) (t + h / 2) / 2) (t + h / 2))
      by auto 6.
    rewrite (H (x + h * f (x + h * f (x + h * f x t / 2) (t + h / 2) / 2)
                           (t + h / 2)) (t + h)) by auto 6.
    auto.
Qed.

Lemma flat_map_agree {A B} (u v : A -> list B) (l : list A) :
  (forall a, In a l -> u a = v a) -> flat_map u l = flat_map v l.
Proof.
  induction l as [|a l IH]; simpl; intros H; [reflexivity|].
  rewrite (H a) by auto. f_equal. apply IH; auto.
Qed.

(** X6. The result depends on [f] only through the points where it was
    evaluated: for every [N >= 1] that converts to a float
    ([N < 2^1024 - 2^970]), if [g] agrees with [f] at every point of the
    calls that a run with [f] made, the run with [g] returns the same
    sequence and makes the same calls. *)
Theorem result_depends_on_visited_points (m : method) f g N xi ti tf tr :
  (1 <= N)%Z -> (N < float_int_bound)%Z ->
  exists x cs,
    run m f N xi ti tf tr = Returns x (cs ++ tr) /\
    ((forall a b, In (a, b) cs -> g a b = f a b) ->
     run m g N xi ti tf tr = Returns x (cs ++ tr)).
Proof.
  intros HN HB. set (h := (tf - ti) / of_Z N).
  destruct (run_loop_trace m f N xi ti tf tr HN HB) as (t & x & Ht & Hx).
  destruct (run_loop_trace m g N xi ti tf tr HN HB) as (t' & x' & Ht' & Hx').
  assert (t' = t) as -> by congruence.
  destruct (run_ok m f N xi ti tf tr)
    as (t1 & x1 & cs1 & Ht1 & Hlen & Hx1 & _ & Hl & H0 & Hs); [lia | lia |].
  assert (t1 = t) as -> by congruence.
  assert (x1 = x) as -> by congruence.
  destruct (run_ok m g N xi ti tf tr)
    as (t2 & x2 & cs2 & Ht2 & _ & Hx2 & _ & Hl' & H0' & Hs'); [lia | lia |].
  assert (t2 = t) as -> by congruence.
  assert (x2 = x') as -> by congruence.
  fold h in Hx, Hx', Hs, Hs'.
  exists x, (visited m f h x t 0 (Z.to_nat N - 1)); split; [exact Hx|].
  intros Hagree.
  assert (Hstep : forall i, (S i < length t)%nat ->
            step_rule m g h (item x i) (item t i)
            = step_rule m f h (item x i) (item t i) /\
            stage_points m g h (item x i) (item t i)
            = stage_points m f h (item x i) (item t i)).
  { intros i Hi. apply stage_agree. intros a b Hab.
    apply Hagree. apply in_visited with (i := i); [lia | exact Hab]. }
  assert (Hall : forall i, (i < length t)%nat -> item x' i = item x i).
  { induction i as [|i IH]; intros Hi; [congruence|].
    rewrite Hs', Hs, IH by lia. apply Hstep; lia. }
  assert (x' = x) as ->.
  { apply item_eq_ext; [congruence|]. intros i Hi. apply Hall; lia. }
  rewrite Hx'. f_equal. f_equal. unfold visited.
  apply flat_map_agree. intros i Hi.
  apply in_rev, in_seq in Hi. apply Hstep; lia.
Qed.

Lemma result_depends_on_visited_points_witness :
  exists x cs,
    run euler (fun x t => x + t) 3%Z 1 0 3 [] = Returns x (cs ++ []) /\
    run euler (fun x t => if t <? 2 then x + t else 0) 3%Z 1 0 3 []
    = Returns x (cs ++ []).
Proof.
  destruct (result_depends_on_visited_points euler (fun x t => x + t)
              (fun x t => if t <? 2 then x + t else 0) 3%Z 1 0 3 [])
    as (x & cs & Hx & Hg); [lia | reflexivity |].
  exists x, cs; split; [exact Hx|]. apply Hg.
  rewrite app_nil_r in Hx. vm_compute in Hx. injection Hx as _ <-.
  intros a b [E|[E|[]]]; injection E as <- <-; reflexivity.
Defined.

Lemma step_rule_autonomous (m : method) (g : float -> float) h x t t' :
  step_rule m (fun x _ => g x) h x t = step_rule m (fun x _ => g x) h x t'.
Proof. destruct m; reflexivity. Qed.

(** X7. For an autonomous equation, one whose [f(x, t) = g(x)] does not look
    at the time, the returned sequence depends on the interval only through
    its length: two intervals with the same [tf - ti] give identical
    sequences, for every stepper and every [N >= 1] that converts to a
    float ([N < 2^1024 - 2^970]). *)
Theorem autonomous_shift_invariant (m : method) (g : float -> float)
    N xi ti tf ti' tf' tr :
  (1 <= N)%Z -> (N < float_int_bound)%Z ->
  tf - ti = tf' - ti' ->
  exists x tr1 tr2,
    run m (fun x _ => g x) N xi ti tf tr = Returns x tr1 /\
    run m (fun x _ => g x) N xi ti' tf' tr = Returns x tr2.
Proof.
  intros HN HB Hd.
  destruct (run_ok m (fun x _ => g x) N xi ti tf tr)
    as (t & x & cs & _ & Hlen & Hx & _ & Hl & H0 & Hs); [lia | lia |].
  destruct (run_ok m (fun x _ => g x) N xi ti' tf' tr)
    as (t' & x' & cs' & _ & Hlen' & Hx' & _ & Hl' & H0' & Hs'); [lia | lia |].
  rewrite <- Hd in Hs'.
  assert (x' = x) as ->.
  { apply item_eq_ext; [congruence|].
    intros i Hi. induction i as [|i IH]; [congruence|].
    rewrite Hs', Hs, IH by lia. apply step_rule_autonomous. }
  exists x, (cs ++ tr), (cs' ++ tr); auto.
Qed.

Lemma autonomous_shift_invariant_witness :
  exists x tr1 tr2,
    run rk4 (fun x _ => x * x) 5%Z 1 0 1 [] = Returns x tr1 /\
    run rk4 (fun x _ => x * x) 5%Z 1 7 8 [] = Returns x tr2.
Proof.
  apply (autonomous_shift_invariant rk4 (fun x => x * x) 5%Z 1 0 1 7 8 []).
  - lia.
  - reflexivity.
  - reflexivity.
Defined.

Lemma stage_points_last (m : method) f h x t d :
  last (stage_points m f h x t) d = (x, t).
Proof. destruct m; reflexivity. Qed.

Lemma stage_points_nonempty (m : method) f h x t :
  stage_points m f h x t <> [].
Proof. destruct m; discriminate. Qed.

Lemma last_app_nonempty {A} (l l' : list A) d :
  l' <> [] -> last (l ++ l') d = last l' d.
Proof.
  intros H; induction l as [|a l IH]; [reflexivity|].
  simpl. destruct (l ++ l') eqn:E; [|exact IH].
  apply app_eq_nil in E as [_ E]. contradiction.
Qed.

Lemma visited_last (m : method) f h x t n d :
  last (visited m f h x t 0 (S n)) d = (item x 0, item t 0).
Proof.
  unfold visited. change (seq 0 (S n)) with (0%nat :: seq 1 n).
  simpl rev. rewrite flat_map_app. simpl flat_map. rewrite app_nil_r.
  rewrite last_app_nonempty by apply stage_points_nonempty.
  apply stage_points_last.
Qed.

(** X8. The first evaluation is at the initial condition: for every stepper
    and every [N >= 2] that converts to a float ([N < 2^1024 - 2^970]), when
    [ti] is not the negative zero and the grid spacing [(tf-ti)/(N-1)] is
    finite, the earliest call made to [f] is [f(xi, ti)]. *)
Theorem first_call_at_initial_condition (m : method) f N xi ti tf tr :
  (2 <= N)%Z -> (N < float_int_bound)%Z ->
  ti <> (-0)%float ->
  finite ((tf - ti) / of_Z (N - 1)) = true ->
  exists x cs,
    run m f N xi ti tf tr = Returns x (cs ++ tr) /\
    cs <> [] /\
    forall d, last cs d = (xi, ti).
Proof.
  intros HN HB Hti Hfin.
  destruct (run_loop_trace m f N xi ti tf tr) as (t & x & Ht & Hx); [lia | lia |].
  destruct (run_ok m f N xi ti tf tr)
    as (t1 & x1 & cs1 & Ht1 & Hlen & Hx1 & _ & Hl & H0 & _); [lia | lia |].
  assert (t1 = t) as -> by congruence.
  assert (x1 = x) as -> by congruence.
  destruct (linspace_items ti tf N t [] HN Ht) as [_ Hi].
  assert (Ht0 : item t 0 = ti).
  { rewrite Hi by lia. now apply grid_point_first. }
  destruct (Z.to_nat N - 1)%nat as [|n] eqn:En; [lia|].
  eexists x, _; split; [exact Hx|]. split.
  - unfold visited. change (seq 0 (S n)) with (0%nat :: seq 1 n).
    simpl rev. rewrite flat_map_app. simpl flat_map. rewrite app_nil_r.
    intros E. apply app_eq_nil in E as [_ E].
    now apply stage_points_nonempty in E.
  - intros d. rewrite visited_last, H0, Ht0. reflexivity.
Qed.

Lemma first_call_at_initial_condition_witness :
  exists x cs,
    run rk2 (fun x t => x + t) 10%Z 1 0 10 [] = Returns x (cs ++ []) /\
    last cs (0, 0) = (1, 0).
Proof.
  destruct (first_call_at_initial_condition rk2 (fun x t => x + t) 10%Z 1 0 10 [])
    as (x & cs & Hx & _ & Hlast).
  - lia.
  - reflexivity.
  - apply float_neq; vm_compute; discriminate.
  - reflexivity.
  - exists x, cs; split; [exact Hx | apply Hlast].
Defined.
